(** * Block-by-timestamp locator

    A shallow embedding of [findBlockByTimestamp] from
    [Aula-02-dados-historicos-dune-the-graph/02-transaction-simulation/simulate-past-state.js]
    (lines 146-193) together with the properties of its binary search, and
    of the snapshot loop of [trackBalanceChanges] (lines 91-119) of the same
    file.

    Modelling choices.
    - [provider] is the only collaborator.  [await provider.getBlock(x)]
      either resolves to a block object or rejects with an error; the function
      has no [try]/[catch], so a rejection becomes the rejection of the whole
      call.
    - Block numbers and timestamps are JavaScript numbers holding integers;
      they are modelled as [Z].  The function is read twice.
      [findBlockByTimestamp] is the search of lines 153-180 and 192 on exact
      integers.  [findBlockByTimestamp64] is the whole call: every sum and
      difference is rounded to binary64, and the two [toISOString] calls
      (lines 150 and 188) reject with a [RangeError] for a time beyond
      8.64e12 seconds.  The two agree for a head of at most 2^52 and times
      that are valid dates ([findBlockByTimestamp64_exact]); statements that
      promise a result for every input of some kind are made about
      [findBlockByTimestamp64].
    - The other [console.log] lines do not influence the control flow or the
      returned value and are left out.
    - The [while] loop is run with fuel; the fuel handed to it is the width
      of the initial window, which is enough whenever the head is at most
      2^52. *)

From Stdlib Require Import ZArith List Lia Bool Sorted.
Import ListNotations.
Local Open Scope Z_scope.

(** ** Data *)

(** The two fields of a block object that the function reads. *)
Record Block : Type := mkBlock { number : Z; timestamp : Z }.

(** How an awaited promise settles. *)
Inductive Settled (E A : Type) : Type :=
| Resolved (a : A)
| Rejected (e : E).
Arguments Resolved {E A} a.
Arguments Rejected {E A} e.

(** The JSON-RPC provider: [getLatest] stands for [provider.getBlock('latest')],
    [getBlock n] for [provider.getBlock(n)]. *)
Record Provider (Err : Type) : Type := mkProvider {
  getLatest : Settled Err Block;
  getBlock : Z -> Settled Err Block
}.
Arguments mkProvider {Err} _ _.
Arguments getLatest {Err} _.
Arguments getBlock {Err} _ _.

(** The three locals of the function. *)
Record State : Type := mkState {
  left : Z;
  right : Z;
  closestBlock : option Block
}.

(** Why the loop was left: through [break] (line 167) or because the loop
    condition [left <= right] became false. *)
Inductive Exit : Type := EarlyExit | Exhausted.

(** What one run of the loop body does. *)
Inductive Step (Err : Type) : Type :=
| Continue (s : State)
| Break (s : State)
| Throw (e : Err).
Arguments Continue {Err} s.
Arguments Break {Err} s.
Arguments Throw {Err} e.

(** How the loop ends.  [OutOfFuel] is an artefact of the fuel; [runs_ends]
    shows that [search] never produces it. *)
Inductive Outcome (Err : Type) : Type :=
| Finished (how : Exit) (s : State)
| Failed (e : Err)
| OutOfFuel.
Arguments Finished {Err} how s.
Arguments Failed {Err} e.
Arguments OutOfFuel {Err}.

(** [Math.abs(block.timestamp - targetTimestamp)]. *)
Definition distance (targetTimestamp : Z) (block : Block) : Z :=
  Z.abs (timestamp block - targetTimestamp).

(** Lines 176-179: "Keep track of closest". *)
Definition keepCloser (targetTimestamp : Z) (closest : option Block)
    (block : Block) : option Block :=
  match closest with
  | None => Some block
  | Some c =>
      if distance targetTimestamp block <? distance targetTimestamp c
      then Some block else Some c
  end.

(** ** The search loop *)

Section Loop.
Context {Err : Type}.
Variable provider : Provider Err.
Variable targetTimestamp : Z.
(** The acceptance window.  The source writes the literal [15] (line 164);
    it is a parameter here so that statements indexed by a tolerance can be
    phrased, and [findBlockByTimestamp] below fixes it to [15]. *)
Variable toleranceSeconds : Z.

(** Line 161. *)
Definition mid (s : State) : Z := (left s + right s) / 2.

(** Lines 161-179, one iteration. *)
Definition body (s : State) : Step Err :=
  match getBlock provider (mid s) with
  | Rejected e => Throw e
  | Resolved block =>
      if distance targetTimestamp block <? toleranceSeconds then
        Break (mkState (left s) (right s) (Some block))
      else
        let s1 :=
          if timestamp block <? targetTimestamp
          then mkState (mid s + 1) (right s) (closestBlock s)
          else mkState (left s) (mid s - 1) (closestBlock s) in
        Continue (mkState (left s1) (right s1)
                    (keepCloser targetTimestamp (closestBlock s1) block))
  end.

(** Lines 160-180.  The first component is the list of block numbers handed
    to [provider.getBlock], in the order of the calls. *)
Fixpoint while (fuel : nat) (s : State) : list Z * Outcome Err :=
  if left s <=? right s then
    match fuel with
    | O => ([], OutOfFuel)
    | S fuel' =>
        match body s with
        | Throw e => ([mid s], Failed e)
        | Break s' => ([mid s], Finished EarlyExit s')
        | Continue s' =>
            let (probes, o) := while fuel' s' in (mid s :: probes, o)
        end
    end
  else ([], Finished Exhausted s).

(** The width of the window, the loop's variant. *)
Definition width (s : State) : nat := Z.to_nat (right s - left s + 1).

(** Lines 156-180 for a given head number. *)
Definition search (latestNumber : Z) : list Z * Outcome Err :=
  let s0 := mkState 0 latestNumber None in
  while (width s0) s0.

(** [runs s probes o]: started in [s], the loop calls [getBlock] on
    [probes] in this order and ends with [o]. *)
Inductive runs : State -> list Z -> Outcome Err -> Prop :=
| runs_exhausted s :
    right s < left s -> runs s [] (Finished Exhausted s)
| runs_break s s' :
    left s <= right s -> body s = Break s' ->
    runs s [mid s] (Finished EarlyExit s')
| runs_throw s e :
    left s <= right s -> body s = Throw e ->
    runs s [mid s] (Failed e)
| runs_continue s s' probes o :
    left s <= right s -> body s = Continue s' -> runs s' probes o ->
    runs s (mid s :: probes) o.
End Loop.

(** Line 164: "Within 15 seconds is close enough". *)
Definition tolerance : Z := 15.

(** Lines 146-193.  The value the call resolves to is [closestBlock] of the
    final state ([None] is JavaScript's [null]). *)
Definition findBlockByTimestamp {Err : Type} (provider : Provider Err)
    (targetTimestamp : Z) : list Z * Outcome Err :=
  match getLatest provider with
  | Rejected e => ([], Failed e)
  | Resolved latestBlock =>
      search provider targetTimestamp tolerance (number latestBlock)
  end.

(** The settlement of the promise returned by the call, when the run ends. *)
Definition settlement {Err : Type} (o : Outcome Err)
    : option (Settled Err (option Block)) :=
  match o with
  | Finished _ s => Some (Resolved (closestBlock s))
  | Failed e => Some (Rejected e)
  | OutOfFuel => None
  end.

(** ** Providers used in statements *)

(** A provider that never fails and serves the chain whose block [n] has
    timestamp [ts n]. *)
Definition chain (ts : Z -> Z) (latestNumber : Z) : Provider unit :=
  mkProvider (Resolved (mkBlock latestNumber (ts latestNumber)))
             (fun n => Resolved (mkBlock n (ts n))).

(** A USDC contract deployed at block [deployed]: reading the total supply
    before that block rejects, afterwards it grows by one unit per block. *)
Definition supplySince (deployed : Z) (blockTag : Z) : Settled unit Z :=
  if blockTag <? deployed then Rejected tt else Resolved (blockTag - deployed).

(** The synthetic series with 12-second blocks. *)
Definition twelve (n : Z) : Z := n * 12.

(** A chain with 30-second blocks: neighbours of a target halfway between two
    blocks sit exactly 15 seconds away. *)
Definition thirty (n : Z) : Z := n * 30.

(** Like [chain], except that fetching block [bad] rejects; the error carries
    the number of the block that was asked for. *)
Definition failingAt (bad : Z) (ts : Z -> Z) (latestNumber : Z) : Provider Z :=
  mkProvider (Resolved (mkBlock latestNumber (ts latestNumber)))
             (fun n => if n =? bad then Rejected n
                       else Resolved (mkBlock n (ts n))).

(** ** The call on JavaScript numbers

    [left], [right], [mid], block numbers and timestamps are IEEE 754
    binary64 numbers.  The definitions above compute with exact integers;
    the ones below round every sum and difference the way the source does,
    and add the two places where the function formats a time (lines 149-150
    and 182-190).  [findBlockByTimestamp64_exact] shows that both readings
    agree when the head is at most 2^52 and the times are valid dates.  In
    this reading a loop that yields [OutOfFuel] for every amount of fuel is a
    loop that does not end. *)

(** The binary64 number nearest to the integer [z], ties to even; meant for
    [z] below 2^1024 in magnitude.  Integers of magnitude at most 2^53 are
    kept. *)
Definition roundInt (z : Z) : Z :=
  if Z.abs z <? 2 ^ 53 then z
  else
    let e := Z.log2 (Z.abs z) - 52 in
    let q := Z.abs z / 2 ^ e in
    let r := Z.abs z mod 2 ^ e in
    let half := 2 ^ (e - 1) in
    let q' := if r <? half then q
              else if half <? r then q + 1
              else if Z.even q then q else q + 1 in
    Z.sgn z * (q' * 2 ^ e).

(** [new Date(t * 1000).toISOString()] throws a [RangeError] unless the time
    lies within 8.64e15 milliseconds of the epoch. *)
Definition validDate (t : Z) : bool := Z.abs t <=? 8640000000000.

(** Up to this head every sum [left + right] is an exact binary64 number. *)
Definition maxExactHead : Z := 2 ^ 52.

(** [Math.abs(block.timestamp - targetTimestamp)] on binary64. *)
Definition distance64 (targetTimestamp : Z) (block : Block) : Z :=
  Z.abs (roundInt (timestamp block - targetTimestamp)).

(** Lines 176-179 on binary64. *)
Definition keepCloser64 (targetTimestamp : Z) (closest : option Block)
    (block : Block) : option Block :=
  match closest with
  | None => Some block
  | Some c =>
      if distance64 targetTimestamp block <? distance64 targetTimestamp c
      then Some block else Some c
  end.

Section Loop64.
Context {Err : Type}.
Variable provider : Provider Err.
Variable targetTimestamp : Z.
Variable toleranceSeconds : Z.

(** Line 161: the sum is rounded, halving and [Math.floor] are exact. *)
Definition mid64 (s : State) : Z := roundInt (left s + right s) / 2.

(** Lines 161-179 on binary64. *)
Definition body64 (s : State) : Step Err :=
  match getBlock provider (mid64 s) with
  | Rejected e => Throw e
  | Resolved block =>
      if distance64 targetTimestamp block <? toleranceSeconds then
        Break (mkState (left s) (right s) (Some block))
      else
        let s1 :=
          if timestamp block <? targetTimestamp
          then mkState (roundInt (mid64 s + 1)) (right s) (closestBlock s)
          else mkState (left s) (roundInt (mid64 s - 1)) (closestBlock s) in
        Continue (mkState (left s1) (right s1)
                    (keepCloser64 targetTimestamp (closestBlock s1) block))
  end.

(** Lines 160-180 on binary64. *)
Fixpoint while64 (fuel : nat) (s : State) : list Z * Outcome Err :=
  if left s <=? right s then
    match fuel with
    | O => ([], OutOfFuel)
    | S fuel' =>
        match body64 s with
        | Throw e => ([mid64 s], Failed e)
        | Break s' => ([mid64 s], Finished EarlyExit s')
        | Continue s' =>
            let (probes, o) := while64 fuel' s' in (mid64 s :: probes, o)
        end
    end
  else ([], Finished Exhausted s).


Definition search64 (latestNumber : Z) : list Z * Outcome Err :=
  let s0 := mkState 0 latestNumber None in
  while64 (width s0) s0.
End Loop64.

(** What a call can reject with: the [RangeError] of [toISOString], or the
    reason of a rejected fetch. *)
Inductive JsError (Err : Type) : Type :=
| RangeError
| ProviderError (e : Err).
Arguments RangeError {Err}.
Arguments ProviderError {Err} e.

(** Lines 182-192: the returned block's time is formatted before the
    [return]. *)
Definition logged {Err : Type} (o : Outcome Err) : Outcome (JsError Err) :=
  match o with
  | Finished how s =>
      match closestBlock s with
      | Some b =>
          if validDate (timestamp b) then Finished how s else Failed RangeError
      | None => Finished how s
      end
  | Failed e => Failed (ProviderError e)
  | OutOfFuel => OutOfFuel
  end.

(** Lines 146-193 on binary64, with the two [toISOString] calls. *)
Definition findBlockByTimestamp64 {Err : Type} (provider : Provider Err)
    (targetTimestamp : Z) : list Z * Outcome (JsError Err) :=
  if validDate targetTimestamp then
    match getLatest provider with
    | Rejected e => ([], Failed (ProviderError e))
    | Resolved latestBlock =>
        let (probes, o) :=
          search64 provider targetTimestamp tolerance (number latestBlock) in
        (probes, logged o)
    end
  else ([], Failed RangeError).


(** ** Invariant of the search on a monotone chain *)

(** Everything left of the window is earlier than the target, everything
    right of it is not, and [closestBlock] is at least as close as the two
    blocks that border the window. *)
Definition bracketed (ts : Z -> Z) (targetTimestamp latestNumber : Z)
    (s : State) : Prop :=
  0 <= left s /\ right s <= latestNumber /\ left s <= right s + 1 /\
  (forall k, 0 <= k < left s -> ts k < targetTimestamp) /\
  (forall k, right s < k <= latestNumber -> targetTimestamp <= ts k) /\
  (0 < left s -> exists c, closestBlock s = Some c /\
     distance targetTimestamp c <= Z.abs (ts (left s - 1) - targetTimestamp)) /\
  (right s < latestNumber -> exists c, closestBlock s = Some c /\
     distance targetTimestamp c <= Z.abs (ts (right s + 1) - targetTimestamp)).

(** ** The snapshots of [trackBalanceChanges]

    Lines 94-119 of the same file: the function asks for the current block
    number and then, for [i] from [numSnapshots - 1] down to [0], reads the
    USDC total supply and the block at [currentBlock - i * blockInterval].
    Each iteration has its own [try]/[catch], so a rejected read only skips
    that snapshot (a [null] block, on which [blockInfo.timestamp] throws
    inside the [try], has the same effect and is not told apart from a
    rejection).  The display loop that follows (lines 121-140) is not
    modelled. *)

Module Track.
(** The objects pushed onto [snapshots] (lines 111-115). *)
Record Snapshot : Type := mkSnapshot {
  block : Z;
  timestamp : Z;
  totalSupply : Z
}.
End Track.

Section Snapshots.
Context {Err : Type}.
Variable provider : Provider Err.
(** [usdc.totalSupply({ blockTag: block })]. *)
Variable totalSupplyAt : Z -> Settled Err Z.
Variables currentBlock blockInterval : Z.

(** Lines 105-118: the body of the loop for one value of [i]. *)
Definition snapshotStep (i : nat) (snapshots : list Track.Snapshot)
    : list Track.Snapshot :=
  let block := currentBlock - Z.of_nat i * blockInterval in
  match totalSupplyAt block with
  | Rejected _ => snapshots
  | Resolved totalSupply =>
      match getBlock provider block with
      | Rejected _ => snapshots
      | Resolved blockInfo =>
          snapshots ++ [Track.mkSnapshot block (timestamp blockInfo) totalSupply]
      end
  end.

(** Lines 104-119: [for (let i = n - 1; i >= 0; i--)]. *)
Fixpoint snapshotLoop (n : nat) (snapshots : list Track.Snapshot)
    : list Track.Snapshot :=
  match n with
  | O => snapshots
  | S i => snapshotLoop i (snapshotStep i snapshots)
  end.
End Snapshots.

(** Lines 97-98. *)
Definition numSnapshots : nat := 5.
Definition blockInterval : Z := 20000.

(** Lines 94-119: the value of [snapshots] when the display loop starts;
    [getBlockNumber] stands for [provider.getBlockNumber()], awaited outside
    any [try]. *)
Definition trackBalanceChanges_snapshots {Err : Type} (provider : Provider Err)
    (getBlockNumber : Settled Err Z) (totalSupplyAt : Z -> Settled Err Z)
    : Settled Err (list Track.Snapshot) :=
  match getBlockNumber with
  | Rejected e => Rejected e
  | Resolved currentBlock =>
      Resolved (snapshotLoop provider totalSupplyAt currentBlock blockInterval
                  numSnapshots [])
  end.

(** ** Facts about the loop *)

Section LoopFacts.
Context {Err : Type}.
Variable provider : Provider Err.
Variable targetTimestamp : Z.
Variable toleranceSeconds : Z.

Local Abbreviation iter := (body provider targetTimestamp toleranceSeconds).
Local Abbreviation loop := (while provider targetTimestamp toleranceSeconds).
Local Abbreviation run := (runs provider targetTimestamp toleranceSeconds).

Lemma mid_in_window s : left s <= right s -> left s <= mid s <= right s.
Proof.
  intros H. unfold mid.
  split.
  - apply Z.div_le_lower_bound; lia.
  - apply Z.div_le_upper_bound; lia.
Qed.

Lemma body_throw s e :
  iter s = Throw e -> getBlock provider (mid s) = Rejected e.
Proof.
  unfold body. destruct (getBlock provider (mid s)) as [b|e']; [|congruence].
  destruct (distance targetTimestamp b <? toleranceSeconds); discriminate.
Qed.

Lemma body_break s s' :
  iter s = Break s' ->
  exists block,
    getBlock provider (mid s) = Resolved block /\
    distance targetTimestamp block < toleranceSeconds /\
    s' = mkState (left s) (right s) (Some block).
Proof.
  unfold body. destruct (getBlock provider (mid s)) as [b|e']; [|discriminate].
  destruct (distance targetTimestamp b <? toleranceSeconds) eqn:E; [|discriminate].
  intros [= <-]. exists b. apply Z.ltb_lt in E. auto.
Qed.

Lemma body_continue s s' :
  iter s = Continue s' ->
  exists block,
    getBlock provider (mid s) = Resolved block /\
    toleranceSeconds <= distance targetTimestamp block /\
    closestBlock s' = keepCloser targetTimestamp (closestBlock s) block /\
    ((timestamp block < targetTimestamp /\
      left s' = mid s + 1 /\ right s' = right s) \/
     (targetTimestamp <= timestamp block /\
      left s' = left s /\ right s' = mid s - 1)).
Proof.
  unfold body. destruct (getBlock provider (mid s)) as [b|e']; [|discriminate].
  destruct (distance targetTimestamp b <? toleranceSeconds) eqn:E; [discriminate|].
  apply Z.ltb_ge in E.
  destruct (timestamp b <? targetTimestamp) eqn:C; intros [= <-]; exists b; cbn.
  - apply Z.ltb_lt in C. auto 10.
  - apply Z.ltb_ge in C. auto 10.
Qed.

(** Every iteration that does not leave the loop narrows the window. *)
Lemma body_continue_shrinks s s' :
  left s <= right s -> iter s = Continue s' ->
  left s <= left s' /\ right s' <= right s /\
  right s' - left s' < right s - left s.
Proof.
  intros Hw Hb. pose proof (mid_in_window s Hw) as Hm.
  destruct (body_continue s s' Hb) as (b & _ & _ & _ & [(_ & -> & ->)|(_ & -> & ->)]); lia.
Qed.

(** With as much fuel as the window is wide, [while] follows [runs]. *)
Lemma while_runs fuel s :
  (width s <= fuel)%nat ->
  run s (fst (loop fuel s)) (snd (loop fuel s)).
Proof.
  revert s. induction fuel as [|fuel IH]; intros s Hf.
  - cbn. destruct (left s <=? right s) eqn:E.
    + apply Z.leb_le in E. unfold width in Hf. lia.
    + apply Z.leb_gt in E. now constructor.
  - cbn. destruct (left s <=? right s) eqn:E.
    + apply Z.leb_le in E.
      destruct (iter s) as [s'|s'|e] eqn:B; cbn.
      * pose proof (body_continue_shrinks s s' E B) as Hs.
        specialize (IH s'). 
        destruct (loop fuel s') as [probes o]; cbn in *.
        apply runs_continue with s'; auto. apply IH. unfold width in *. lia.
      * now apply runs_break.
      * now apply runs_throw.
    + apply Z.leb_gt in E. now constructor.
Qed.

Lemma search_runs latestNumber :
  let r := search provider targetTimestamp toleranceSeconds latestNumber in
  run (mkState 0 latestNumber None) (fst r) (snd r).
Proof. apply while_runs. apply Nat.le_refl. Qed.

(** The loop never ends for lack of fuel, and it leaves through the loop
    condition only with an empty window. *)
Lemma runs_ends s probes o :
  run s probes o ->
  o <> OutOfFuel /\
  (forall s', o = Finished Exhausted s' -> right s' < left s').
Proof.
  induction 1 as [s Hw| | |]; auto; (split; [discriminate|intros ? [=]]).
  now subst.
Qed.

(** Probes stay inside the window the loop was started with. *)
Lemma runs_probes_in_window s probes o :
  run s probes o ->
  forall k, In k probes -> left s <= k <= right s.
Proof.
  induction 1 as [s Hw|s s' Hw Hb|s e Hw Hb|s s' probes o Hw Hb Hr IH];
    intros k Hk; cbn in Hk.
  - contradiction.
  - destruct Hk as [<-|[]]. now apply mid_in_window.
  - destruct Hk as [<-|[]]. now apply mid_in_window.
  - destruct Hk as [<-|Hk]; [now apply mid_in_window|].
    specialize (IH k Hk).
    pose proof (body_continue_shrinks s s' Hw Hb). lia.
Qed.

(** A rejection can only come from a rejected fetch, which is the last one. *)
Lemma runs_failed s probes e :
  run s probes (Failed e) ->
  exists before k, probes = before ++ [k] /\
                   getBlock provider k = Rejected e.
Proof.
  remember (Failed e) as o eqn:Ho. induction 1; try discriminate.
  - injection Ho as <-. exists [], (mid s). split; [reflexivity|now apply body_throw].
  - destruct (IHruns Ho) as (before & k & -> & Hk).
    exists (mid s :: before), k. auto.
Qed.



(** When no fetch in the window rejects, the loop finishes. *)
Lemma runs_finishes s probes o :
  run s probes o ->
  (forall n, left s <= n <= right s ->
             exists b, getBlock provider n = Resolved b) ->
  exists how s', o = Finished how s'.
Proof.
  intros Hr Htotal. destruct o as [how s'|e|].
  - eauto.
  - destruct (runs_failed s probes e Hr) as (before & k & -> & Hk).
    destruct (Htotal k) as (b & Hb); [|congruence].
    apply (runs_probes_in_window s _ _ Hr). apply in_or_app. right. now left.
  - now destruct (runs_ends s probes _ Hr).
Qed.

(** The update of [closestBlock] never loses ground. *)
Lemma keepCloser_closer closest block :
  exists c, keepCloser targetTimestamp closest block = Some c /\
    (c = block \/ closest = Some c) /\
    distance targetTimestamp c <= distance targetTimestamp block /\
    (forall c0, closest = Some c0 ->
                distance targetTimestamp c <= distance targetTimestamp c0).
Proof.
  unfold keepCloser. destruct closest as [c0|].
  - destruct (distance targetTimestamp block <? distance targetTimestamp c0) eqn:E.
    + apply Z.ltb_lt in E. exists block. repeat split; auto; try lia.
      intros ? [= <-]. lia.
    + apply Z.ltb_ge in E. exists c0. repeat split; auto; try lia.
      intros ? [= <-]. lia.
  - exists block. repeat split; auto; try lia. discriminate.
Qed.

(** The blocks fetched by a run that exhausts the window, and how
    [closestBlock] is computed from them. *)
Lemma runs_exhausted_fold s probes s' :
  run s probes (Finished Exhausted s') ->
  exists blocks,
    Forall2 (fun k b => getBlock provider k = Resolved b) probes blocks /\
    closestBlock s' =
      fold_left (keepCloser targetTimestamp) blocks (closestBlock s).
Proof.
  remember (Finished Exhausted s') as o eqn:Ho. intros Hr. revert Ho.
  induction Hr as [s Hw|s s1 Hw Hb|s e Hw Hb|s s1 probes o Hw Hb Hr IH];
    intros Ho; try discriminate.
  - injection Ho as <-. exists []. split; [constructor|reflexivity].
  - destruct (IH Ho) as (blocks & HF & Hc).
    destruct (body_continue s s1 Hb) as (b & Hg & _ & Hk & _).
    exists (b :: blocks). split; [now constructor|].
    cbn. now rewrite <- Hk.
Qed.
End LoopFacts.

(** ** The running minimum kept in [closestBlock] *)

Section Closest.
Variable targetTimestamp : Z.

Local Abbreviation dist := (distance targetTimestamp).
Local Abbreviation keep := (keepCloser targetTimestamp).

Lemma fold_keepCloser_some blocks c :
  fold_left keep blocks (Some c) <> None.
Proof.
  revert c. induction blocks as [|x xs IH]; intros c; cbn.
  - discriminate.
  - destruct (dist x <? dist c); apply IH.
Qed.

Lemma fold_keepCloser_none blocks init :
  fold_left keep blocks init = None -> blocks = [] /\ init = None.
Proof.
  destruct blocks as [|x xs]; cbn; [auto|].
  intros H. exfalso.
  destruct (keepCloser_closer targetTimestamp init x) as (c & Hc & _).
  rewrite Hc in H. now apply fold_keepCloser_some in H.
Qed.

(** Folding [keepCloser] yields the first block of least distance: either
    the initial one survives, or a block of the list strictly beats
    everything before it and ties at worst with what follows. *)
Lemma fold_keepCloser_first_min blocks init b :
  fold_left keep blocks init = Some b ->
  (init = Some b /\
   forall j b', nth_error blocks j = Some b' -> dist b <= dist b') \/
  (exists i, nth_error blocks i = Some b /\
     (forall c0, init = Some c0 -> dist b < dist c0) /\
     forall j b', nth_error blocks j = Some b' ->
       dist b <= dist b' /\ ((j < i)%nat -> dist b < dist b')).
Proof.
  revert init. induction blocks as [|x xs IH]; intros init H; cbn in H.
  - left. split; [assumption|]. intros [|j] b'; discriminate.
  - destruct (IH _ H) as [(Hinit & Hmin)|(i & Hi & Hbeat & Hmin)].
    + assert (Hfirst : forall j b', nth_error (b :: xs) j = Some b' ->
                dist b <= dist b' /\ ((j < 0)%nat -> dist b < dist b')).
      { intros [|j] b' Hj; cbn in Hj.
        - injection Hj as <-. split; lia.
        - split; [now apply (Hmin j)|lia]. }
      destruct init as [c0|]; cbn in Hinit.
      * destruct (dist x <? dist c0) eqn:E; injection Hinit as ->.
        -- apply Z.ltb_lt in E. right. exists 0%nat.
           split; [reflexivity|]. split; [|exact Hfirst].
           now intros ? [= <-].
        -- apply Z.ltb_ge in E. left. split; [reflexivity|].
           intros [|j] b' Hj; cbn in Hj.
           ++ now injection Hj as <-.
           ++ now apply (Hmin j).
      * injection Hinit as ->. right. exists 0%nat.
        split; [reflexivity|]. split; [discriminate|exact Hfirst].
    + destruct (keepCloser_closer targetTimestamp init x)
        as (c & Hc & _ & Hcx & Hc0).
      specialize (Hbeat c Hc). right. exists (S i). split; [assumption|]. split.
      * intros c0 Hi0. specialize (Hc0 c0 Hi0). lia.
      * intros [|j] b' Hj; cbn in Hj.
        -- injection Hj as <-. split; intros; lia.
        -- destruct (Hmin j b' Hj) as [Hle Hlt]. split; [assumption|].
           intros Hji. apply Hlt. lia.
Qed.
End Closest.

(** ** The search on a monotone chain *)

Section Monotone.
Context {Err : Type}.
Variable provider : Provider Err.
Variable ts : Z -> Z.
Variables targetTimestamp toleranceSeconds latestNumber : Z.

Hypothesis serves : forall k, 0 <= k <= latestNumber ->
  exists b, getBlock provider k = Resolved b /\ timestamp b = ts k.
Hypothesis monotone : forall i j,
  0 <= i -> i <= j -> j <= latestNumber -> ts i <= ts j.

Local Abbreviation run := (runs provider targetTimestamp toleranceSeconds).

(** What a probe that does not leave the loop tells about its timestamp. *)
Lemma continue_on_chain s s' :
  0 <= left s -> right s <= latestNumber -> left s <= right s ->
  body provider targetTimestamp toleranceSeconds s = Continue s' ->
  toleranceSeconds <= Z.abs (ts (mid s) - targetTimestamp) /\
  (exists c, closestBlock s' = Some c /\
     distance targetTimestamp c <= Z.abs (ts (mid s) - targetTimestamp) /\
     forall c0, closestBlock s = Some c0 ->
       distance targetTimestamp c <= distance targetTimestamp c0) /\
  ((ts (mid s) < targetTimestamp /\
    left s' = mid s + 1 /\ right s' = right s) \/
   (targetTimestamp <= ts (mid s) /\
    left s' = left s /\ right s' = mid s - 1)).
Proof.
  intros H0 Hl Hw Hb. pose proof (mid_in_window s Hw) as Hm.
  destruct (body_continue _ _ _ s s' Hb) as (b & Hg & Htol & Hc & Hdir).
  destruct (serves (mid s)) as (b' & Hg' & Hts); [lia|].
  assert (b' = b) by congruence. subst b'.
  unfold distance in Htol at 1. rewrite Hts in *.
  split; [assumption|]. split; [|assumption].
  destruct (keepCloser_closer targetTimestamp (closestBlock s) b)
    as (c & Hk & _ & Hcb & Hc0).
  exists c. rewrite Hc. split; [assumption|]. split; [|assumption].
  unfold distance in Hcb at 2. now rewrite Hts in Hcb.
Qed.


End Monotone.

(** ** The search as a function of the provider's answers *)

Section Answers.
Context {Err : Type}.
Variables targetTimestamp toleranceSeconds : Z.

(** Two providers that answer alike inside the window drive the loop alike. *)
Lemma while_ext (p1 p2 : Provider Err) fuel s :
  (forall n, left s <= n <= right s -> getBlock p1 n = getBlock p2 n) ->
  while p1 targetTimestamp toleranceSeconds fuel s =
  while p2 targetTimestamp toleranceSeconds fuel s.
Proof.
  revert s. induction fuel as [|fuel IH]; intros s Hsame; cbn.
  - reflexivity.
  - destruct (left s <=? right s) eqn:E; [|reflexivity].
    apply Z.leb_le in E.
    assert (Hb : body p1 targetTimestamp toleranceSeconds s =
                 body p2 targetTimestamp toleranceSeconds s).
    { unfold body. rewrite Hsame; [reflexivity|now apply mid_in_window]. }
    rewrite Hb.
    destruct (body p2 targetTimestamp toleranceSeconds s) as [s'|s'|e] eqn:B;
      try reflexivity.
    rewrite (IH s'); [reflexivity|].
    intros n Hn. apply Hsame.
    pose proof (body_continue_shrinks _ _ _ s s' E B). lia.
Qed.

Variable provider : Provider Err.
Local Abbreviation run := (runs provider targetTimestamp toleranceSeconds).


End Answers.

(** ** What [findBlockByTimestamp] runs *)

Lemma findBlockByTimestamp_runs {Err : Type} (provider : Provider Err)
    targetTimestamp latestBlock probes o :
  getLatest provider = Resolved latestBlock ->
  findBlockByTimestamp provider targetTimestamp = (probes, o) ->
  runs provider targetTimestamp tolerance
       (mkState 0 (number latestBlock) None) probes o.
Proof.
  intros Hl H. unfold findBlockByTimestamp in H. rewrite Hl in H.
  pose proof (search_runs provider targetTimestamp tolerance
                (number latestBlock)) as Hr.
  cbn zeta in Hr. now rewrite H in Hr.
Qed.

(** ** Properties of [findBlockByTimestamp] *)








(** C4: on the 12-second series with head 1000, a target before genesis
    (-100) narrows the window down to block 0 and returns it, and a target
    after the head (999999) narrows it up to block 1000 and returns it. *)
Theorem synthetic_targets_outside_chain :
  findBlockByTimestamp (chain twelve 1000) (-100) =
    ([500; 249; 124; 61; 30; 14; 6; 2; 0],
     Finished Exhausted (mkState 0 (-1) (Some (mkBlock 0 0)))) /\
  findBlockByTimestamp (chain twelve 1000) 999999 =
    ([500; 750; 875; 938; 969; 985; 993; 997; 999; 1000],
     Finished Exhausted (mkState 1001 1000 (Some (mkBlock 1000 12000)))).
Proof. split; vm_compute; reflexivity. Qed.

(** C5: on the 12-second series with head 1000, targets 6000 (exact match)
    and 6005 (5 seconds off) both return block 500, found by the first
    probe. *)
Theorem synthetic_targets_inside_chain :
  findBlockByTimestamp (chain twelve 1000) 6000 =
    ([500], Finished EarlyExit (mkState 0 1000 (Some (mkBlock 500 6000)))) /\
  distance 6000 (mkBlock 500 6000) = 0 /\
  findBlockByTimestamp (chain twelve 1000) 6005 =
    ([500], Finished EarlyExit (mkState 0 1000 (Some (mkBlock 500 6000)))) /\
  distance 6005 (mkBlock 500 6000) = 5.
Proof. repeat split; vm_compute; reflexivity. Qed.

(** C8: the call keeps no state of its own: two calls with the same target
    against providers that give the same head and the same answers for the
    blocks of [0, latest] make the same fetches and return the same block. *)
Theorem findBlockByTimestamp_deterministic {Err : Type}
    (p1 p2 : Provider Err) targetTimestamp :
  getLatest p1 = getLatest p2 ->
  (forall latestBlock n,
     getLatest p1 = Resolved latestBlock ->
     0 <= n <= number latestBlock -> getBlock p1 n = getBlock p2 n) ->
  findBlockByTimestamp p1 targetTimestamp =
  findBlockByTimestamp p2 targetTimestamp.
Proof.
  intros Hl Hsame. unfold findBlockByTimestamp. rewrite <- Hl.
  destruct (getLatest p1) as [latestBlock|e] eqn:E; [|reflexivity].
  unfold search. apply while_ext. cbn. intros n Hn.
  now apply (Hsame latestBlock).
Qed.

Lemma findBlockByTimestamp_deterministic_witness :
  findBlockByTimestamp (failingAt 2000 twelve 1000) 6005 =
  findBlockByTimestamp (failingAt 3000 twelve 1000) 6005.
Proof.
  apply (findBlockByTimestamp_deterministic
           (failingAt 2000 twelve 1000) (failingAt 3000 twelve 1000) 6005).
  - reflexivity.
  - intros latestBlock n Hl Hn. injection Hl as <-. simpl in Hn.
    unfold failingAt, getBlock.
    destruct (Z.eqb_spec n 2000) as [->|_]; [lia|].
    destruct (Z.eqb_spec n 3000) as [->|_]; [lia|]. reflexivity.
Defined.


(** C10: when the loop is left through its condition, the call returns [null]
    only if nothing was probed; otherwise it returns the answer to one of the
    probes, no probed block is closer to the target than it, and every block
    probed before it is strictly farther. *)
Theorem exhausted_returns_first_closest {Err : Type} (provider : Provider Err)
    targetTimestamp probes s :
  findBlockByTimestamp provider targetTimestamp =
    (probes, Finished Exhausted s) ->
  match closestBlock s with
  | None => probes = []
  | Some b =>
      exists i k,
        nth_error probes i = Some k /\ getBlock provider k = Resolved b /\
        forall j k' b',
          nth_error probes j = Some k' ->
          getBlock provider k' = Resolved b' ->
          distance targetTimestamp b <= distance targetTimestamp b' /\
          ((j < i)%nat ->
           distance targetTimestamp b < distance targetTimestamp b')
  end.
Proof.
  intros E.
  destruct (getLatest provider) as [latestBlock|e] eqn:Hl;
    [|unfold findBlockByTimestamp in E; rewrite Hl in E; discriminate].
  pose proof (findBlockByTimestamp_runs _ _ _ _ _ Hl E) as Hr.
  destruct (runs_exhausted_fold _ _ _ _ _ _ Hr) as (blocks & HF & Hc).
  cbn in Hc. rewrite Hc.
  destruct (fold_left (keepCloser targetTimestamp) blocks None) as [b|] eqn:F.
  - destruct (fold_keepCloser_first_min _ _ _ _ F)
      as [(Habs & _)|(i & Hi & _ & Hmin)]; [discriminate|].
    assert (Hnth : forall j k', nth_error probes j = Some k' ->
              exists b', nth_error blocks j = Some b' /\
                         getBlock provider k' = Resolved b').
    { clear -HF. induction HF as [|k0 b0 ks bs H0 HF IH]; intros [|j] k' Hj;
        cbn in Hj; try discriminate.
      - injection Hj as <-. exists b0. auto.
      - now apply IH. }
    assert (Hk : exists k, nth_error probes i = Some k /\
                           getBlock provider k = Resolved b).
    { clear -HF Hi. revert i Hi.
      induction HF as [|k0 b0 ks bs H0 HF IH]; intros [|i] Hi;
        cbn in Hi; try discriminate.
      - injection Hi as ->. exists k0. auto.
      - now apply IH. }
    destruct Hk as (k & Hik & Hkb).
    exists i, k. split; [assumption|]. split; [assumption|].
    intros j k' b' Hj Hg'.
    destruct (Hnth j k' Hj) as (b'' & Hb'' & Hg'').
    assert (b'' = b') by congruence. subst b''.
    now apply (Hmin j).
  - apply fold_keepCloser_none in F. destruct F as [-> _].
    now inversion HF.
Qed.

Lemma exhausted_returns_first_closest_witness :
  exists i k,
    nth_error [500; 249; 124; 61; 30; 14; 6; 2; 0] i = Some k /\
    getBlock (chain twelve 1000) k = Resolved (mkBlock 0 0) /\
    forall j k' b',
      nth_error [500; 249; 124; 61; 30; 14; 6; 2; 0] j = Some k' ->
      getBlock (chain twelve 1000) k' = Resolved b' ->
      distance (-100) (mkBlock 0 0) <= distance (-100) b' /\
      ((j < i)%nat -> distance (-100) (mkBlock 0 0) < distance (-100) b').
Proof.
  apply (exhausted_returns_first_closest (chain twelve 1000) (-100)
           [500; 249; 124; 61; 30; 14; 6; 2; 0]
           (mkState 0 (-1) (Some (mkBlock 0 0)))).
  vm_compute. reflexivity.
Defined.

(** ** Cost and shape of the probes *)

Section Probes.
Context {Err : Type}.
Variable provider : Provider Err.
Variables targetTimestamp toleranceSeconds : Z.

Local Abbreviation run := (runs provider targetTimestamp toleranceSeconds).

(** [Math.floor((left + right) / 2)] splits the window in two halves. *)
Lemma mid_halves s : left s + right s - 1 <= 2 * mid s <= left s + right s.
Proof.
  unfold mid.
  pose proof (Z.div_mod (left s + right s) 2).
  pose proof (Z.mod_pos_bound (left s + right s) 2). lia.
Qed.

(** Every fetch before the last one answered with a block outside the
    tolerance, and so does the last one unless the loop is left through
    [break]; [closestBlock] therefore stays outside the tolerance until
    then. *)
Lemma runs_within_tolerance_iff s probes how s' :
  run s probes (Finished how s') ->
  (forall c, closestBlock s = Some c ->
             toleranceSeconds <= distance targetTimestamp c) ->
  forall b, closestBlock s' = Some b ->
    (distance targetTimestamp b < toleranceSeconds <-> how = EarlyExit).
Proof.
  remember (Finished how s') as o eqn:Ho. intros Hr. revert Ho.
  induction Hr as [s Hw|s s1 Hw Hb|s e Hw Hb|s s1 probes o Hw Hb Hr IH];
    intros Ho Hfar b Hc; try discriminate.
  - injection Ho as <- <-. specialize (Hfar b Hc).
    split; [lia|discriminate].
  - injection Ho as <- <-.
    destruct (body_break _ _ _ s s1 Hb) as (b' & _ & Hd & ->).
    cbn in Hc. injection Hc as ->. split; auto.
  - apply (IH Ho); [|assumption].
    destruct (body_continue _ _ _ s s1 Hb) as (b' & _ & Htol & Hk & _).
    intros c Hs1. rewrite Hk in Hs1.
    destruct (keepCloser_closer targetTimestamp (closestBlock s) b')
      as (c' & Hc' & Hwho & _).
    assert (c' = c) by congruence. subst c'.
    destruct Hwho as [->|Hold]; auto.
Qed.
End Probes.

(** ** The closest block of a monotone chain *)

Section Nearest.
Context {Err : Type}.
Variable provider : Provider Err.
Variable ts : Z -> Z.
Variables targetTimestamp toleranceSeconds latestNumber : Z.

Hypothesis serves : forall k, 0 <= k <= latestNumber ->
  exists b, getBlock provider k = Resolved b /\ timestamp b = ts k.
Hypothesis monotone : forall i j,
  0 <= i -> i <= j -> j <= latestNumber -> ts i <= ts j.

Local Abbreviation run := (runs provider targetTimestamp toleranceSeconds).
Local Abbreviation gap := (fun k => Z.abs (ts k - targetTimestamp)).
Local Abbreviation bracketed := (bracketed ts targetTimestamp latestNumber).

Lemma bracketed_continue s s' :
  left s <= right s -> bracketed s ->
  body provider targetTimestamp toleranceSeconds s = Continue s' ->
  bracketed s'.
Proof.
  intros Hw (H0 & Hl & Hlr & Hlo & Hhi & Hcl & Hcr) Hb.
  pose proof (mid_in_window s Hw) as Hm.
  destruct (continue_on_chain provider ts targetTimestamp toleranceSeconds
              latestNumber serves s s' H0 Hl Hw Hb)
    as (_ & (c & Hc & Hcm & Hc0) & Hdir).
  assert (Hold : forall c0 g, closestBlock s = Some c0 ->
            distance targetTimestamp c0 <= g ->
            exists c1, closestBlock s' = Some c1 /\
                       distance targetTimestamp c1 <= g).
  { intros c0 g Hs Hg. exists c. split; [assumption|].
    specialize (Hc0 c0 Hs). lia. }
  destruct Hdir as [(Hlt & Hl' & Hr')|(Hge & Hl' & Hr')];
    unfold bracketed; rewrite Hl', Hr'.
  - repeat split; try lia.
    + intros k Hk. pose proof (monotone k (mid s)). lia.
    + assumption.
    + intros _. exists c. split; [assumption|].
      now replace (mid s + 1 - 1) with (mid s) by lia.
    + intros Hlt'. destruct (Hcr Hlt') as (c0 & Hs & Hg). eauto.
  - repeat split; try lia.
    + assumption.
    + intros k Hk. pose proof (monotone (mid s) k). lia.
    + intros Hpos. destruct (Hcl Hpos) as (c0 & Hs & Hg). eauto.
    + intros _. exists c. split; [assumption|].
      now replace (mid s - 1 + 1) with (mid s) by lia.
Qed.

(** When the window closes, [closestBlock] beats every block of the chain. *)
Lemma bracketed_closed s :
  0 <= latestNumber -> right s < left s -> bracketed s ->
  exists b, closestBlock s = Some b /\
    forall n, 0 <= n <= latestNumber -> distance targetTimestamp b <= gap n.
Proof.
  intros Hlatest Hclosed (H0 & Hl & Hlr & Hlo & Hhi & Hcl & Hcr).
  assert (Hsome : exists b, closestBlock s = Some b).
  { destruct (Z_lt_le_dec 0 (left s)) as [Hpos|Hzero].
    - destruct (Hcl Hpos) as (c & Hc & _). eauto.
    - destruct Hcr as (c & Hc & _); [lia|eauto]. }
  destruct Hsome as (b & Hb). exists b. split; [assumption|].
  intros n Hn.
  destruct (Z_lt_le_dec n (left s)) as [Hbelow|Habove].
  - destruct Hcl as (c & Hc & Hd); [lia|].
    assert (c = b) by congruence. subst c.
    pose proof (Hlo n). pose proof (Hlo (left s - 1)).
    pose proof (monotone n (left s - 1)). lia.
  - destruct Hcr as (c & Hc & Hd); [lia|].
    assert (c = b) by congruence. subst c.
    pose proof (Hhi n). pose proof (Hhi (right s + 1)).
    pose proof (monotone (right s + 1) n). lia.
Qed.

Lemma runs_nearest s probes how s' :
  run s probes (Finished how s') ->
  0 <= latestNumber -> bracketed s ->
  exists b, closestBlock s' = Some b /\
    ((how = EarlyExit /\ distance targetTimestamp b < toleranceSeconds) \/
     (how = Exhausted /\
      forall n, 0 <= n <= latestNumber ->
                distance targetTimestamp b <= gap n)).
Proof.
  remember (Finished how s') as o eqn:Ho. intros Hr. revert Ho.
  induction Hr as [s Hw|s s1 Hw Hb|s e Hw Hb|s s1 probes o Hw Hb Hr IH];
    intros Ho Hlatest Hinv; try discriminate.
  - injection Ho as <- <-.
    destruct (bracketed_closed s Hlatest Hw Hinv) as (b & Hb & Hmin).
    exists b. auto.
  - injection Ho as <- <-.
    destruct (body_break _ _ _ s s1 Hb) as (b & _ & Hd & ->).
    exists b. auto.
  - apply (IH Ho Hlatest). now apply (bracketed_continue s).
Qed.
End Nearest.

(** ** Further properties of [findBlockByTimestamp] *)

(** On exact integers: on a monotone chain the returned block is strictly
    within the tolerance or at least as close as every block of the chain. *)
Lemma returns_nearest_Z {Err : Type}
    (provider : Provider Err) (ts : Z -> Z) targetTimestamp latestBlock :
  getLatest provider = Resolved latestBlock ->
  0 <= number latestBlock ->
  (forall k, 0 <= k <= number latestBlock ->
     exists b, getBlock provider k = Resolved b /\ timestamp b = ts k) ->
  (forall i j, 0 <= i -> i <= j -> j <= number latestBlock -> ts i <= ts j) ->
  exists probes how s b,
    findBlockByTimestamp provider targetTimestamp = (probes, Finished how s) /\
    closestBlock s = Some b /\
    ((how = EarlyExit /\ distance targetTimestamp b < tolerance) \/
     (how = Exhausted /\
      forall n, 0 <= n <= number latestBlock ->
        distance targetTimestamp b <= Z.abs (ts n - targetTimestamp))).
Proof.
  intros Hl H0 Hserve Hmono.
  destruct (findBlockByTimestamp provider targetTimestamp) as [probes o] eqn:E.
  pose proof (findBlockByTimestamp_runs _ _ _ _ _ Hl E) as Hr.
  destruct (runs_finishes _ _ _ _ _ _ Hr) as (how & s & ->).
  { intros n Hn. destruct (Hserve n Hn) as (b & Hb & _). eauto. }
  destruct (runs_nearest provider ts targetTimestamp tolerance
              (number latestBlock) Hserve Hmono _ _ _ _ Hr H0)
    as (b & Hb & Hcase).
  { unfold bracketed. cbn. repeat split; try lia; intros; lia. }
  exists probes, how, s, b. auto.
Qed.

(** X4: the returned block tells how the search ended: it lies strictly less
    than 15 seconds from the target exactly when the loop was left through
    [break]; after a search that ran until [left > right] the returned block
    is at least 15 seconds away. *)
Theorem within_tolerance_iff_early_exit {Err : Type} (provider : Provider Err)
    targetTimestamp probes how s b :
  findBlockByTimestamp provider targetTimestamp = (probes, Finished how s) ->
  closestBlock s = Some b ->
  (distance targetTimestamp b < tolerance <-> how = EarlyExit).
Proof.
  intros E Hc.
  destruct (getLatest provider) as [latestBlock|e] eqn:Hl;
    [|unfold findBlockByTimestamp in E; rewrite Hl in E; discriminate].
  pose proof (findBlockByTimestamp_runs _ _ _ _ _ Hl E) as Hr.
  apply (runs_within_tolerance_iff _ _ _ _ _ _ _ Hr); [|assumption].
  cbn. discriminate.
Qed.

Lemma within_tolerance_iff_early_exit_witness :
  distance 15 (mkBlock 1 30) < tolerance <-> Exhausted = EarlyExit.
Proof.
  apply (within_tolerance_iff_early_exit (chain thirty 2) 15 [1; 0]
           Exhausted (mkState 1 0 (Some (mkBlock 1 30))) (mkBlock 1 30)).
  - vm_compute. reflexivity.
  - reflexivity.
Defined.

(** ** The snapshots of [trackBalanceChanges] *)

Section SnapshotFacts.
Context {Err : Type}.
Variable provider : Provider Err.
Variable totalSupplyAt : Z -> Settled Err Z.
Variables currentBlock interval : Z.

Local Abbreviation step := (snapshotStep provider totalSupplyAt currentBlock interval).
Local Abbreviation loop := (snapshotLoop provider totalSupplyAt currentBlock interval).

(** A snapshot is genuine for step [i] when it holds what the two reads at
    block [currentBlock - i * interval] resolved to. *)
Local Abbreviation genuine := (fun (i : nat) (s : Track.Snapshot) =>
  Track.block s = currentBlock - Z.of_nat i * interval /\
  totalSupplyAt (Track.block s) = Resolved (Track.totalSupply s) /\
  exists blockInfo, getBlock provider (Track.block s) = Resolved blockInfo /\
                    Track.timestamp s = timestamp blockInfo).

Lemma snapshotStep_app i snapshots : step i snapshots = snapshots ++ step i [].
Proof.
  unfold snapshotStep.
  destruct (totalSupplyAt _); [|now rewrite app_nil_r].
  destruct (getBlock provider _); [reflexivity|now rewrite app_nil_r].
Qed.

Lemma snapshotLoop_app n snapshots : loop n snapshots = snapshots ++ loop n [].
Proof.
  revert snapshots. induction n as [|i IH]; intros snapshots; cbn.
  - now rewrite app_nil_r.
  - rewrite (IH (step i snapshots)), (IH (step i [])), snapshotStep_app.
    now rewrite app_assoc.
Qed.

Lemma snapshotLoop_succ i : loop (S i) [] = step i [] ++ loop i [].
Proof. cbn. apply snapshotLoop_app. Qed.

Lemma snapshotStep_genuine i s : In s (step i []) <-> genuine i s.
Proof.
  unfold snapshotStep.
  set (b := currentBlock - Z.of_nat i * interval).
  split.
  - destruct (totalSupplyAt b) as [supply|] eqn:Hs; [|intros []].
    destruct (getBlock provider b) as [blockInfo|] eqn:Hb; [|intros []].
    intros [<-|[]]. cbn. fold b. eauto.
  - intros (Hblock & Hsupply & blockInfo & Hinfo & Hts).
    destruct s as [sb st ss]. cbn in *. subst sb.
    rewrite Hsupply, Hinfo. left. now rewrite Hts.
Qed.


Lemma snapshotLoop_genuine n s :
  In s (loop n []) <-> exists i, (i < n)%nat /\ genuine i s.
Proof.
  induction n as [|n IH].
  - cbn. split; [intros []|intros (i & Hi & _); lia].
  - rewrite snapshotLoop_succ, in_app_iff, IH, snapshotStep_genuine. split.
    + intros [Hn|(i & Hi & Hg)]; [exists n|exists i]; split; auto; lia.
    + intros (i & Hi & Hg).
      destruct (Nat.eq_dec i n) as [->|Hne]; [now left|].
      right. exists i. split; [lia|assumption].
Qed.


End SnapshotFacts.




(** ** The binary64 reading agrees with exact integers *)

Lemma maxExactHead_eq : maxExactHead = 4503599627370496.
Proof. reflexivity. Qed.

Lemma roundInt_exact z : Z.abs z <= 9007199254740992 -> roundInt z = z.
Proof.
  intros H. unfold roundInt.
  change (2 ^ 53) with 9007199254740992.
  destruct (Z.abs z <? 9007199254740992) eqn:E; [reflexivity|].
  apply Z.ltb_ge in E.
  assert (Hz : z = 9007199254740992 \/ z = - 9007199254740992) by lia.
  destruct Hz as [-> | ->]; reflexivity.
Qed.

Lemma validDate_bound t : validDate t = true -> Z.abs t <= 8640000000000.
Proof. unfold validDate. apply Z.leb_le. Qed.

Lemma distance64_exact targetTimestamp b :
  validDate targetTimestamp = true -> validDate (timestamp b) = true ->
  distance64 targetTimestamp b = distance targetTimestamp b.
Proof.
  intros Ht Hb. apply validDate_bound in Ht, Hb.
  unfold distance64, distance. rewrite roundInt_exact; [reflexivity|lia].
Qed.

Lemma keepCloser64_exact targetTimestamp closest b :
  validDate targetTimestamp = true -> validDate (timestamp b) = true ->
  (forall c, closest = Some c -> validDate (timestamp c) = true) ->
  keepCloser64 targetTimestamp closest b = keepCloser targetTimestamp closest b.
Proof.
  intros Ht Hb Hc. unfold keepCloser64, keepCloser.
  destruct closest as [c|]; [|reflexivity].
  now rewrite !distance64_exact by auto.
Qed.

Lemma mid64_exact s :
  0 <= left s -> left s <= right s -> right s <= maxExactHead ->
  mid64 s = mid s.
Proof.
  rewrite maxExactHead_eq. intros H0 Hw Hr. unfold mid64, mid.
  rewrite roundInt_exact; [reflexivity|lia].
Qed.

Section Exact.
Context {Err : Type}.
Variable provider : Provider Err.
Variables targetTimestamp toleranceSeconds latestNumber : Z.

Hypothesis head_exact : latestNumber <= maxExactHead.
Hypothesis target_valid : validDate targetTimestamp = true.
Hypothesis blocks_valid : forall n b,
  0 <= n <= latestNumber -> getBlock provider n = Resolved b ->
  validDate (timestamp b) = true.

Local Abbreviation iter := (body provider targetTimestamp toleranceSeconds).
Local Abbreviation iter64 := (body64 provider targetTimestamp toleranceSeconds).
Local Abbreviation loop := (while provider targetTimestamp toleranceSeconds).
Local Abbreviation loop64 := (while64 provider targetTimestamp toleranceSeconds).
Local Abbreviation run := (runs provider targetTimestamp toleranceSeconds).

(** States in which nothing is rounded. *)
Local Abbreviation safe := (fun s : State =>
  0 <= left s /\ right s <= latestNumber /\
  forall c, closestBlock s = Some c -> validDate (timestamp c) = true).

Lemma body64_exact s : safe s -> left s <= right s -> iter64 s = iter s.
Proof.
  intros (H0 & Hr & Hc) Hw.
  pose proof (mid_in_window s Hw) as Hm.
  pose proof maxExactHead_eq as Hmax.
  unfold body64, body. rewrite mid64_exact by lia.
  destruct (getBlock provider (mid s)) as [b|e] eqn:G; [|reflexivity].
  assert (Hb : validDate (timestamp b) = true).
  { apply (blocks_valid (mid s)); [lia|assumption]. }
  rewrite distance64_exact by assumption.
  destruct (distance targetTimestamp b <? toleranceSeconds); [reflexivity|].
  destruct (timestamp b <? targetTimestamp); cbn [left right closestBlock];
    rewrite roundInt_exact by lia;
    rewrite keepCloser64_exact by assumption; reflexivity.
Qed.

Lemma body_keeps_safe s s' :
  safe s -> left s <= right s -> iter s = Continue s' -> safe s'.
Proof.
  intros (H0 & Hr & Hc) Hw Hb.
  pose proof (mid_in_window s Hw) as Hm.
  destruct (body_continue _ _ _ s s' Hb) as (b & Hg & _ & Hk & Hdir).
  assert (Hvb : validDate (timestamp b) = true).
  { apply (blocks_valid (mid s)); [lia|assumption]. }
  split; [|split].
  - destruct Hdir as [(_ & -> & _)|(_ & -> & _)]; lia.
  - destruct Hdir as [(_ & _ & ->)|(_ & _ & ->)]; lia.
  - intros c Hs. rewrite Hk in Hs.
    destruct (keepCloser_closer targetTimestamp (closestBlock s) b)
      as (c' & Hc' & Hwho & _).
    assert (c' = c) by congruence. subst c'.
    destruct Hwho as [->|Hold]; auto.
Qed.

Lemma while64_exact fuel s : safe s -> loop64 fuel s = loop fuel s.
Proof.
  revert s. induction fuel as [|fuel IH]; intros s Hs; [reflexivity|].
  cbn [while64 while].
  destruct (left s <=? right s) eqn:E; [|reflexivity].
  apply Z.leb_le in E.
  rewrite body64_exact by assumption.
  rewrite mid64_exact by (destruct Hs as (? & ? & _); lia).
  destruct (iter s) as [s'|s'|e] eqn:B; try reflexivity.
  rewrite IH; [reflexivity|]. now apply (body_keeps_safe s).
Qed.

Lemma runs_closest_valid s probes how s' :
  run s probes (Finished how s') -> safe s ->
  forall b, closestBlock s' = Some b -> validDate (timestamp b) = true.
Proof.
  remember (Finished how s') as o eqn:Ho. intros Hr. revert Ho.
  induction Hr as [s Hw|s s1 Hw Hb|s e Hw Hb|s s1 probes o Hw Hb Hr IH];
    intros Ho Hs b Hc; try discriminate.
  - injection Ho as _ <-. now apply Hs.
  - injection Ho as _ <-.
    destruct (body_break _ _ _ s s1 Hb) as (b' & Hg & _ & ->).
    cbn in Hc. injection Hc as ->.
    pose proof (mid_in_window s Hw).
    apply (blocks_valid (mid s)); [destruct Hs as (? & ? & _); lia|assumption].
  - apply (IH Ho); [|assumption]. now apply (body_keeps_safe s).
Qed.

End Exact.

(** The binary64 call makes the fetches of the exact-integer search and ends
    the same way, when the head is at most 2^52 and the target and the
    timestamps of the blocks of [0, latest] are valid dates. *)
Lemma findBlockByTimestamp64_exact {Err : Type} (provider : Provider Err)
    targetTimestamp latestBlock probes o :
  getLatest provider = Resolved latestBlock ->
  number latestBlock <= maxExactHead ->
  validDate targetTimestamp = true ->
  (forall n b, 0 <= n <= number latestBlock ->
     getBlock provider n = Resolved b -> validDate (timestamp b) = true) ->
  findBlockByTimestamp provider targetTimestamp = (probes, o) ->
  findBlockByTimestamp64 provider targetTimestamp = (probes, logged o) /\
  forall how s, o = Finished how s -> logged o = Finished how s.
Proof.
  intros Hl Hhead Ht Hvalid E.
  pose proof (findBlockByTimestamp_runs _ _ _ _ _ Hl E) as Hr.
  assert (Hsafe : 0 <= left (mkState 0 (number latestBlock) None) /\
            right (mkState 0 (number latestBlock) None) <= number latestBlock /\
            forall c, closestBlock (mkState 0 (number latestBlock) None) = Some c ->
                      validDate (timestamp c) = true).
  { cbn. repeat split; try lia. discriminate. }
  split.
  - unfold findBlockByTimestamp64, search64. rewrite Ht, Hl.
    rewrite (while64_exact provider targetTimestamp tolerance
               (number latestBlock) Hhead Ht Hvalid _ _ Hsafe).
    unfold findBlockByTimestamp, search in E. rewrite Hl in E.
    now rewrite E.
  - intros how s ->. cbn.
    destruct (closestBlock s) as [b|] eqn:Hc; [|reflexivity].
    now rewrite (runs_closest_valid provider targetTimestamp tolerance
                   (number latestBlock) Hvalid _ _ _ _ Hr Hsafe b Hc).
Qed.

(** ** The binary64 loop inside [0, 2^52] *)

Section Loop64Facts.
Context {Err : Type}.
Variable provider : Provider Err.
Variables targetTimestamp toleranceSeconds : Z.

Local Abbreviation iter64 := (body64 provider targetTimestamp toleranceSeconds).
Local Abbreviation loop64 := (while64 provider targetTimestamp toleranceSeconds).


(** Whatever the timestamps are, an iteration that stays in the loop moves
    one bound past the probed block. *)
Lemma body64_continue_window s s' :
  0 <= left s -> left s <= right s -> right s <= maxExactHead ->
  iter64 s = Continue s' ->
  (left s' = mid s + 1 /\ right s' = right s) \/
  (left s' = left s /\ right s' = mid s - 1).
Proof.
  intros H0 Hw Hr. pose proof (mid_in_window s Hw) as Hm.
  pose proof maxExactHead_eq as Hmax.
  unfold body64. rewrite mid64_exact by assumption.
  destruct (getBlock provider (mid s)) as [b|e]; [|discriminate].
  destruct (distance64 targetTimestamp b <? toleranceSeconds); [discriminate|].
  destruct (timestamp b <? targetTimestamp); intros [= <-];
    cbn [left right]; rewrite roundInt_exact by lia; auto.
Qed.

(** The fetches of the binary64 loop: pairwise distinct, inside the window,
    and so few that their number is logarithmic in its width. *)
Lemma while64_probes fuel s :
  0 <= left s -> right s <= maxExactHead ->
  NoDup (fst (loop64 fuel s)) /\
  (forall k, In k (fst (loop64 fuel s)) -> left s <= k <= right s) /\
  (left s <= right s ->
   2 ^ Z.of_nat (length (fst (loop64 fuel s))) <=
   2 * (right s - left s + 1)).
Proof.
  assert (Hnil : forall w, 1 <= w ->
            2 ^ Z.of_nat (length (@nil Z)) <= 2 * w).
  { intros w Hw. change (2 ^ Z.of_nat (length (@nil Z))) with 1. lia. }
  assert (Hone : forall (m w : Z), 1 <= w ->
            2 ^ Z.of_nat (length [m]) <= 2 * w).
  { intros m w Hw. change (2 ^ Z.of_nat (length [m])) with 2. lia. }
  revert s. induction fuel as [|fuel IH]; intros s H0 Hr; cbn [while64];
    destruct (left s <=? right s) eqn:E.
  - apply Z.leb_le in E. cbn [fst].
    split; [constructor|]. split; [intros k []|]. intros _. apply Hnil. lia.
  - apply Z.leb_gt in E. cbn [fst].
    split; [constructor|]. split; [intros k []|]. intros; lia.
  - apply Z.leb_le in E.
    pose proof (mid_in_window s E) as Hm. pose proof (mid_halves s) as Hh.
    rewrite mid64_exact by assumption.
    destruct (iter64 s) as [s'|s'|e] eqn:B.
    + assert (Hs' : 0 <= left s' /\ right s' <= maxExactHead /\
                (mid s < left s' \/ right s' < mid s) /\
                left s <= left s' /\ right s' <= right s /\
                2 * (right s' - left s' + 1) <= right s - left s + 1).
      { destruct (body64_continue_window s s' H0 E Hr B)
          as [[-> ->]|[-> ->]]; lia. }
      destruct Hs' as (H0' & Hr' & Hout & Hl' & Hrr' & Hhalf).
      destruct (IH s' H0' Hr') as (Hnd & Hin & Hcount).
      destruct (loop64 fuel s') as [probes o]. cbn [fst] in *.
      split; [|split].
      * constructor; [|assumption]. intros Hk. apply Hin in Hk. lia.
      * intros k [<-|Hk]; [lia|]. apply Hin in Hk. lia.
      * intros _. cbn [length]. rewrite Nat2Z.inj_succ, Z.pow_succ_r by lia.
        destruct probes as [|k0 probes].
        -- change (2 ^ Z.of_nat (length (@nil Z))) with 1. lia.
        -- assert (left s' <= right s')
             by (specialize (Hin k0 (or_introl eq_refl)); lia).
           specialize (Hcount H). lia.
    + cbn [fst]. split; [constructor; [intros []|constructor]|].
      split; [intros k [<-|[]]; lia|]. intros _. apply Hone. lia.
    + cbn [fst]. split; [constructor; [intros []|constructor]|].
      split; [intros k [<-|[]]; lia|]. intros _. apply Hone. lia.
  - apply Z.leb_gt in E. cbn [fst].
    split; [constructor|]. split; [intros k []|]. intros; lia.
Qed.

End Loop64Facts.

(** ** A head beyond 2^53 *)

Section Stuck.
Context {Err : Type}.
Variable provider : Provider Err.
Variables targetTimestamp toleranceSeconds : Z.

Local Abbreviation iter64 := (body64 provider targetTimestamp toleranceSeconds).
Local Abbreviation loop64 := (while64 provider targetTimestamp toleranceSeconds).


End Stuck.


(** ** Properties of the call on JavaScript numbers *)

(** A target that is not a valid date is rejected by line 150, before any
    fetch. *)
Lemma invalid_target_rejects {Err : Type} (provider : Provider Err)
    targetTimestamp :
  validDate targetTimestamp = false ->
  findBlockByTimestamp64 provider targetTimestamp = ([], Failed RangeError).
Proof. intros H. unfold findBlockByTimestamp64. now rewrite H. Qed.



(** C6: when the head number is negative the loop body never runs: no block
    is fetched by number and the call gives no block: it resolves to [null],
    or rejects with the [RangeError] of line 150 when the target is not a
    valid date. *)
Theorem negative_head_probes_nothing {Err : Type} (provider : Provider Err)
    targetTimestamp latestBlock :
  getLatest provider = Resolved latestBlock ->
  number latestBlock < 0 ->
  findBlockByTimestamp64 provider targetTimestamp =
    ([], if validDate targetTimestamp
         then Finished Exhausted (mkState 0 (number latestBlock) None)
         else Failed RangeError) /\
  settlement (snd (findBlockByTimestamp64 provider targetTimestamp)) =
    Some (if validDate targetTimestamp
          then Resolved None else Rejected RangeError).
Proof.
  intros Hl Hneg.
  assert (E : findBlockByTimestamp64 provider targetTimestamp =
              ([], if validDate targetTimestamp
                   then Finished Exhausted (mkState 0 (number latestBlock) None)
                   else Failed RangeError)).
  { unfold findBlockByTimestamp64, search64.
    destruct (validDate targetTimestamp); [|reflexivity].
    rewrite Hl.
    assert (W : forall fuel s, right s < left s ->
              while64 provider targetTimestamp tolerance fuel s =
                ([], Finished Exhausted s)).
    { intros fuel s H. apply Z.leb_gt in H. destruct fuel; cbn; now rewrite H. }
    rewrite W by (cbn; lia). reflexivity. }
  rewrite E. split; [reflexivity|].
  now destruct (validDate targetTimestamp).
Qed.

Lemma negative_head_probes_nothing_witness :
  findBlockByTimestamp64 (chain twelve (-1)) 6000 =
    ([], if validDate 6000
         then Finished Exhausted (mkState 0 (number (mkBlock (-1) (-12))) None)
         else Failed RangeError) /\
  settlement (snd (findBlockByTimestamp64 (chain twelve (-1)) 6000)) =
    Some (if validDate 6000 then Resolved None else Rejected RangeError).
Proof.
  apply (negative_head_probes_nothing (chain twelve (-1)) 6000
           (mkBlock (-1) (-12))).
  - reflexivity.
  - simpl. lia.
Defined.







(** X1: for a head of at most 2^52 the call never fetches the same block
    number twice, and every block number it fetches lies in [0, latest];
    this holds whatever the provider answers: fetches may fail and
    timestamps need not be ordered. *)
Theorem probes_distinct_in_range {Err : Type} (provider : Provider Err)
    targetTimestamp latestBlock probes o :
  getLatest provider = Resolved latestBlock ->
  number latestBlock <= maxExactHead ->
  findBlockByTimestamp64 provider targetTimestamp = (probes, o) ->
  NoDup probes /\ forall k, In k probes -> 0 <= k <= number latestBlock.
Proof.
  intros Hl Hhead E64.
  unfold findBlockByTimestamp64, search64 in E64. rewrite Hl in E64.
  destruct (validDate targetTimestamp).
  - destruct (while64_probes provider targetTimestamp tolerance
                (width (mkState 0 (number latestBlock) None))
                (mkState 0 (number latestBlock) None))
      as (Hnd & Hin & _); cbn [left right]; try lia.
    destruct (while64 provider targetTimestamp tolerance
                (width (mkState 0 (number latestBlock) None))
                (mkState 0 (number latestBlock) None)) as [probes' o'].
    injection E64 as <- _. cbn [fst left right] in *. auto.
  - injection E64 as <- _. split; [constructor|intros k []].
Qed.

Lemma probes_distinct_in_range_witness :
  NoDup [500; 750; 875; 938; 969; 985; 993; 997; 999; 1000] /\
  forall k, In k [500; 750; 875; 938; 969; 985; 993; 997; 999; 1000] ->
    0 <= k <= number (mkBlock 1000 12000).
Proof.
  apply (probes_distinct_in_range (chain twelve 1000) 999999
           (mkBlock 1000 12000) _
           (Finished Exhausted (mkState 1001 1000 (Some (mkBlock 1000 12000))))).
  - reflexivity.
  - vm_compute. discriminate.
  - vm_compute. reflexivity.
Defined.

(** X2: for a head between 0 and 2^52 the call makes at most
    [log2 (latest + 1) + 1] fetches by number, whatever the provider
    answers. *)
Theorem probes_logarithmic {Err : Type} (provider : Provider Err)
    targetTimestamp latestBlock probes o :
  getLatest provider = Resolved latestBlock ->
  0 <= number latestBlock <= maxExactHead ->
  findBlockByTimestamp64 provider targetTimestamp = (probes, o) ->
  Z.of_nat (length probes) <= Z.log2 (number latestBlock + 1) + 1.
Proof.
  intros Hl [H0 Hhead] E64.
  pose proof (Z.log2_nonneg (number latestBlock + 1)) as Hlog.
  unfold findBlockByTimestamp64, search64 in E64. rewrite Hl in E64.
  destruct (validDate targetTimestamp).
  - destruct (while64_probes provider targetTimestamp tolerance
                (width (mkState 0 (number latestBlock) None))
                (mkState 0 (number latestBlock) None))
      as (_ & _ & Hcount); cbn [left right]; try lia.
    destruct (while64 provider targetTimestamp tolerance
                (width (mkState 0 (number latestBlock) None))
                (mkState 0 (number latestBlock) None)) as [probes' o'].
    injection E64 as <- _. cbn [fst left right] in Hcount.
    specialize (Hcount H0).
    destruct probes' as [|k probes']; [cbn; lia|].
    cbn [length] in *. rewrite Nat2Z.inj_succ in *.
    rewrite Z.pow_succ_r in Hcount by lia.
    assert (Hp : 2 ^ Z.of_nat (length probes') <= number latestBlock + 1)
      by lia.
    apply Z.log2_le_pow2 in Hp; lia.
  - injection E64 as <- _. cbn [length Z.of_nat]. lia.
Qed.

Lemma probes_logarithmic_witness :
  Z.of_nat (length [500; 249; 124; 61; 30; 14; 6; 2; 0]) <=
  Z.log2 (number (mkBlock 1000 12000) + 1) + 1.
Proof.
  apply (probes_logarithmic (chain twelve 1000) (-100) (mkBlock 1000 12000) _
           (Finished Exhausted (mkState 0 (-1) (Some (mkBlock 0 0))))).
  - reflexivity.
  - split; vm_compute; discriminate.
  - vm_compute. reflexivity.
Defined.

(** X3: for a head between 0 and 2^52, a target that is a valid date and a
    chain over [0, latest] whose blocks can all be fetched and whose
    timestamps are valid dates and never decrease, the call returns a block
    that is either strictly less than 15 seconds from the target (loop left
    through [break]) or at least as close to the target as every block of
    [0, latest] (loop left through its condition). *)
Theorem returns_nearest_or_within_tolerance {Err : Type}
    (provider : Provider Err) (ts : Z -> Z) targetTimestamp latestBlock :
  getLatest provider = Resolved latestBlock ->
  0 <= number latestBlock <= maxExactHead ->
  validDate targetTimestamp = true ->
  (forall k, 0 <= k <= number latestBlock ->
     exists b, getBlock provider k = Resolved b /\ timestamp b = ts k) ->
  (forall k, 0 <= k <= number latestBlock -> validDate (ts k) = true) ->
  (forall i j, 0 <= i -> i <= j -> j <= number latestBlock -> ts i <= ts j) ->
  exists probes how s b,
    findBlockByTimestamp64 provider targetTimestamp =
      (probes, Finished how s) /\
    closestBlock s = Some b /\
    ((how = EarlyExit /\ distance targetTimestamp b < tolerance) \/
     (how = Exhausted /\
      forall n, 0 <= n <= number latestBlock ->
        distance targetTimestamp b <= Z.abs (ts n - targetTimestamp))).
Proof.
  intros Hl [H0 Hhead] Ht Hserve Hdates Hmono.
  destruct (returns_nearest_Z provider ts targetTimestamp latestBlock
              Hl H0 Hserve Hmono)
    as (probes & how & s & b & E & Hrest).
  assert (Hvalid : forall k b', 0 <= k <= number latestBlock ->
            getBlock provider k = Resolved b' ->
            validDate (timestamp b') = true).
  { intros k b' Hk Hg. destruct (Hserve k Hk) as (b'' & Hg' & Hts).
    assert (b'' = b') by congruence. subst b''. rewrite Hts. now apply Hdates. }
  destruct (findBlockByTimestamp64_exact provider targetTimestamp latestBlock
              probes (Finished how s) Hl Hhead Ht Hvalid E) as (E64 & Hlog).
  exists probes, how, s, b. rewrite E64, (Hlog how s eq_refl). auto.
Qed.

Lemma returns_nearest_or_within_tolerance_witness :
  exists probes how s b,
    findBlockByTimestamp64 (chain thirty 2) 15 = (probes, Finished how s) /\
    closestBlock s = Some b /\
    ((how = EarlyExit /\ distance 15 b < tolerance) \/
     (how = Exhausted /\
      forall n, 0 <= n <= number (mkBlock 2 60) ->
        distance 15 b <= Z.abs (thirty n - 15))).
Proof.
  apply (returns_nearest_or_within_tolerance (chain thirty 2) thirty 15
           (mkBlock 2 60)).
  - reflexivity.
  - split; vm_compute; discriminate.
  - reflexivity.
  - intros k _. eexists. split; reflexivity.
  - intros k Hk. cbn in Hk. unfold validDate, thirty. apply Z.leb_le. lia.
  - intros i j _ Hij _. unfold thirty. lia.
Defined.

(** X6: when [provider.getBlockNumber()] resolves to a block number between 0
    and 2^53, the [snapshots] array that the loop of lines 104-119 builds
    holds exactly the snapshots of the blocks [currentBlock - i * 20000],
    [0 <= i < 5], at which both reads resolved, each with the total supply and
    the block timestamp the reads resolved to; a block at which a read
    rejected is left out and the others are kept. *)
Theorem snapshots_skip_failed_reads {Err : Type} (provider : Provider Err)
    (getBlockNumber : Settled Err Z) (totalSupplyAt : Z -> Settled Err Z)
    currentBlock snapshots :
  getBlockNumber = Resolved currentBlock ->
  0 <= currentBlock <= 2 ^ 53 ->
  trackBalanceChanges_snapshots provider getBlockNumber totalSupplyAt =
    Resolved snapshots ->
  forall s, In s snapshots <->
    exists i, 0 <= i < 5 /\
      Track.block s = currentBlock - i * 20000 /\
      totalSupplyAt (Track.block s) = Resolved (Track.totalSupply s) /\
      exists blockInfo,
        getBlock provider (Track.block s) = Resolved blockInfo /\
        Track.timestamp s = timestamp blockInfo.
Proof.
  intros Hn _ E.
  assert (Hloop : snapshots = snapshotLoop provider totalSupplyAt currentBlock
                                blockInterval numSnapshots []).
  { unfold trackBalanceChanges_snapshots in E. rewrite Hn in E. congruence. }
  subst snapshots. clear E.
  intros s. rewrite snapshotLoop_genuine. unfold numSnapshots, blockInterval.
  split.
  - intros (i & Hi & Hb & Hrest). exists (Z.of_nat i).
    split; [lia|]. split; assumption.
  - intros (i & Hi & Hb & Hrest). exists (Z.to_nat i).
    split; [lia|]. rewrite Z2Nat.id by lia. split; assumption.
Qed.

Lemma snapshots_skip_failed_reads_witness :
  In (Track.mkSnapshot 30000 360000 29000)
     [Track.mkSnapshot 10000 120000 9000;
      Track.mkSnapshot 30000 360000 29000;
      Track.mkSnapshot 50000 600000 49000] <->
  exists i, 0 <= i < 5 /\
    Track.block (Track.mkSnapshot 30000 360000 29000) = 50000 - i * 20000 /\
    supplySince 1000 (Track.block (Track.mkSnapshot 30000 360000 29000)) =
      Resolved (Track.totalSupply (Track.mkSnapshot 30000 360000 29000)) /\
    exists blockInfo,
      getBlock (chain twelve 50000)
        (Track.block (Track.mkSnapshot 30000 360000 29000)) =
        Resolved blockInfo /\
      Track.timestamp (Track.mkSnapshot 30000 360000 29000) =
        timestamp blockInfo.
Proof.
  apply (snapshots_skip_failed_reads (chain twelve 50000) (Resolved 50000)
           (supplySince 1000) 50000
           [Track.mkSnapshot 10000 120000 9000;
            Track.mkSnapshot 30000 360000 29000;
            Track.mkSnapshot 50000 600000 49000]).
  - reflexivity.
  - split; vm_compute; discriminate.
  - vm_compute. reflexivity.
Defined.
